(** * ShaderTypes.h: the [Uniforms] block shared by the host and the shaders

    The header [Physics/ShaderTypes.h] holds a single declaration,

<<
    typedef struct {
        matrix_float4x4 projectionMatrix;
        matrix_float4x4 modelViewMatrix;
        vector_float4   color;
    } Uniforms;
>>

    This development embeds it three ways and relates the three:
    - the declaration itself, as a type descriptor ([Uniforms_t]) laid out
      by the C rule for structures ([layout_of], [field_offsets]);
    - its values, as a record ([Uniforms]) with one projection and one
      update per member;
    - its object representation, as a buffer of bytes on which a member
      access is a bounds-checked load or store at the member's offset. *)

From Stdlib Require Import String ZArith List Lia Bool.
From coqutil Require Import Byte Word.Interface Word.Properties Word.Naive.
From coqutil Require Import Word.LittleEndianList.
Import ListNotations.

Local Open Scope nat_scope.
Local Open Scope list_scope.

(* ===================================================================== *)
(** ** Type descriptors and the C layout rule *)
(* ===================================================================== *)

(** The C types the header mentions.  [Tvector e n] is a clang extended
    vector ([__attribute__((ext_vector_type(n)))]) of [n] elements, [n] a
    power of two, [Tarray e n] a C array and [Tstruct] an aggregate whose
    members are listed in declaration order. *)
#[warnings="-register-all"]
Inductive ctype : Type :=
| Tfloat : ctype
| Tvector : ctype -> nat -> ctype
| Tarray : ctype -> nat -> ctype
| Tstruct : list (string * ctype) -> ctype.

(** Round [off] up to the next multiple of [a]. *)
Definition align_up (off a : nat) : nat := ((off + a - 1) / a) * a.

(** Size and alignment, in bytes, of a type: [(sizeof, alignof)].
    A [float] is four bytes; a vector is as large as its elements together
    and aligned to its size; an array is aligned as its element; the
    members of a structure are placed in declaration order, each at the
    first offset that is a multiple of its alignment, the structure takes
    the largest alignment of its members and its size is rounded up to
    that alignment. *)
Fixpoint layout_of (t : ctype) : nat * nat :=
  match t with
  | Tfloat => (4, 4)
  | Tvector e n => (n * fst (layout_of e), n * fst (layout_of e))
  | Tarray e n => (n * fst (layout_of e), snd (layout_of e))
  | Tstruct fs =>
      let fix members (off al : nat) (fs : list (string * ctype)) : nat * nat :=
        match fs with
        | [] => (align_up off al, al)
        | (_, ft) :: rest =>
            let '(sz, a) := layout_of ft in
            members (align_up off a + sz) (Nat.max al a) rest
        end in
      members 0 1 fs
  end.

Definition sizeof (t : ctype) : nat := fst (layout_of t).
Definition alignof (t : ctype) : nat := snd (layout_of t).

(** Offsets of the members of a structure, in declaration order, starting
    the placement at [off]. *)
Fixpoint field_offsets_from (off : nat) (fs : list (string * ctype))
  : list (string * nat) :=
  match fs with
  | [] => []
  | (name, ft) :: rest =>
      let o := align_up off (alignof ft) in
      (name, o) :: field_offsets_from (o + sizeof ft) rest
  end.

Definition field_offsets (fs : list (string * ctype)) : list (string * nat) :=
  field_offsets_from 0 fs.

(** The placement loop of [layout_of] for a structure, as a function of
    its own: [layout_of (Tstruct fs) = struct_layout_from 0 1 fs]. *)
Fixpoint struct_layout_from (off al : nat) (fs : list (string * ctype))
  : nat * nat :=
  match fs with
  | [] => (align_up off al, al)
  | (_, ft) :: rest =>
      struct_layout_from (align_up off (alignof ft) + sizeof ft)
                         (Nat.max al (alignof ft)) rest
  end.

(** [offsetof] and the type of a member; [None] when the structure has no
    member of that name. *)
Fixpoint lookup_member_from (off : nat) (fs : list (string * ctype))
  (name : string) : option (nat * ctype) :=
  match fs with
  | [] => None
  | (n, ft) :: rest =>
      let o := align_up off (alignof ft) in
      if String.eqb n name then Some (o, ft)
      else lookup_member_from (o + sizeof ft) rest name
  end.

Definition lookup_member (fs : list (string * ctype)) (name : string)
  : option (nat * ctype) := lookup_member_from 0 fs name.

Definition offsetof (fs : list (string * ctype)) (name : string) : option nat :=
  option_map fst (lookup_member fs name).

(** Bytes of a structure that belong to no member. *)
Definition struct_padding (fs : list (string * ctype)) : nat :=
  sizeof (Tstruct fs) - list_sum (map (fun f => sizeof (snd f)) fs).

(* ===================================================================== *)
(** ** The vector and matrix types of [<simd/simd.h>] *)
(* ===================================================================== *)

(** Modelled from the spec: [vector_float4] of [<simd/simd.h>], a header
    that is not part of the repository.  The spec gives it as "a
    4-component single-precision floating-point vector": a vector of four
    [float]. *)
Definition vector_float4_t : ctype := Tvector Tfloat 4.

(** Modelled from the spec: [matrix_float4x4] of [<simd/simd.h>], "4x4
    matrix of single-precision floating-point values, column-major": a
    structure whose only member is the array of the four columns. *)
Definition matrix_float4x4_t : ctype :=
  Tstruct [("columns"%string, Tarray vector_float4_t 4)].

(** A [float] is kept as its IEEE-754 binary32 bit pattern: a member load
    or store moves the 32 bits unchanged, whatever they encode. *)
Definition float32 : Type := Naive.word32.

(** Modelled from the spec: a value of [vector_float4], four [float]
    components (red, green, blue, alpha for [color]). *)
Record vector_float4 : Type := mkVector {
  vx : float32;
  vy : float32;
  vz : float32;
  vw : float32
}.

(** Modelled from the spec: a value of [matrix_float4x4], four columns. *)
Record matrix_float4x4 : Type := mkMatrix {
  column0 : vector_float4;
  column1 : vector_float4;
  column2 : vector_float4;
  column3 : vector_float4
}.

(** [v[i]] and [m.columns[c]]; indices past the end read the last one. *)
Definition vector_elem (v : vector_float4) (i : nat) : float32 :=
  match i with
  | 0 => vx v
  | 1 => vy v
  | 2 => vz v
  | _ => vw v
  end.

Definition columns (m : matrix_float4x4) (c : nat) : vector_float4 :=
  match c with
  | 0 => column0 m
  | 1 => column1 m
  | 2 => column2 m
  | _ => column3 m
  end.

(** The entry in row [r] and column [c]: [m.columns[c][r]]. *)
Definition matrix_elem (m : matrix_float4x4) (r c : nat) : float32 :=
  vector_elem (columns m c) r.

(* ===================================================================== *)
(** ** The declaration of the header *)
(* ===================================================================== *)

(** The members of [Uniforms], in declaration order, over the two types
    the declaration takes from [<simd/simd.h>]. *)
Definition Uniforms_members (mat vec : ctype) : list (string * ctype) :=
  [ ("projectionMatrix"%string, mat);
    ("modelViewMatrix"%string, mat);
    ("color"%string, vec) ].

Definition Uniforms_fields : list (string * ctype) :=
  Uniforms_members matrix_float4x4_t vector_float4_t.

Definition Uniforms_t : ctype := Tstruct Uniforms_fields.

(** A value of [Uniforms]. *)
Record Uniforms : Type := mkUniforms {
  projectionMatrix : matrix_float4x4;
  modelViewMatrix : matrix_float4x4;
  color : vector_float4
}.

(** [u.projectionMatrix = p], [u.modelViewMatrix = m], [u.color = c]. *)
Definition set_projectionMatrix (u : Uniforms) (p : matrix_float4x4) : Uniforms :=
  {| projectionMatrix := p;
     modelViewMatrix := modelViewMatrix u;
     color := color u |}.

Definition set_modelViewMatrix (u : Uniforms) (m : matrix_float4x4) : Uniforms :=
  {| projectionMatrix := projectionMatrix u;
     modelViewMatrix := m;
     color := color u |}.

Definition set_color (u : Uniforms) (c : vector_float4) : Uniforms :=
  {| projectionMatrix := projectionMatrix u;
     modelViewMatrix := modelViewMatrix u;
     color := c |}.

(* ===================================================================== *)
(** ** Object representation *)
(* ===================================================================== *)

(** The storage of one object: its bytes, lowest address first. *)
Definition buffer : Type := list byte.

(** The [n] bytes of [b] that start at offset [off]. *)
Definition slice (off n : nat) (b : list byte) : list byte :=
  firstn n (skipn off b).

(** A load or a store of [n] bytes at offset [off] is defined only when
    the range [off, off + n) lies inside the object. *)
Definition load_bytes (off n : nat) (b : buffer) : option (list byte) :=
  if off + n <=? length b then Some (slice off n b) else None.

Definition store_bytes (off : nat) (bs : list byte) (b : buffer) : option buffer :=
  if off + length bs <=? length b
  then Some (firstn off b ++ bs ++ skipn (off + length bs) b)
  else None.

(** A [float] occupies four bytes, least significant first (the hosts and
    the GPUs the header is compiled for are little-endian). *)
Definition encode_float32 (f : float32) : list byte :=
  le_split 4 (word.unsigned f).

Definition decode_float32 (bs : list byte) : float32 :=
  word.of_Z (le_combine bs).

(** Modelled from the spec: the bytes of a [vector_float4], its four
    components in index order. *)
Definition encode_vector (v : vector_float4) : list byte :=
  encode_float32 (vx v) ++ encode_float32 (vy v) ++
  encode_float32 (vz v) ++ encode_float32 (vw v).

Definition decode_vector (bs : list byte) : vector_float4 :=
  {| vx := decode_float32 (slice 0 4 bs);
     vy := decode_float32 (slice 4 4 bs);
     vz := decode_float32 (slice 8 4 bs);
     vw := decode_float32 (slice 12 4 bs) |}.

(** Modelled from the spec: the bytes of a [matrix_float4x4], "column-major":
    its four columns one after the other. *)
Definition encode_matrix (m : matrix_float4x4) : list byte :=
  encode_vector (column0 m) ++ encode_vector (column1 m) ++
  encode_vector (column2 m) ++ encode_vector (column3 m).

Definition decode_matrix (bs : list byte) : matrix_float4x4 :=
  {| column0 := decode_vector (slice 0 16 bs);
     column1 := decode_vector (slice 16 16 bs);
     column2 := decode_vector (slice 32 16 bs);
     column3 := decode_vector (slice 48 16 bs) |}.

(** [Uniforms] stores its members in declaration order. *)
Definition encode_Uniforms (u : Uniforms) : buffer :=
  encode_matrix (projectionMatrix u) ++ encode_matrix (modelViewMatrix u) ++
  encode_vector (color u).

Definition decode_Uniforms (b : buffer) : Uniforms :=
  {| projectionMatrix := decode_matrix (slice 0 64 b);
     modelViewMatrix := decode_matrix (slice 64 64 b);
     color := decode_vector (slice 128 16 b) |}.

(** The [float] components of [n] consecutive four-byte cells. *)
Fixpoint floats_of (n : nat) (bs : list byte) : list float32 :=
  match n with
  | 0 => []
  | S k => decode_float32 (slice 0 4 bs) :: floats_of k (skipn 4 bs)
  end.

(** The entries of a matrix, column after column. *)
Definition column_major (m : matrix_float4x4) : list float32 :=
  flat_map (fun c => map (fun r => matrix_elem m r c) (seq 0 4)) (seq 0 4).

(** Access to the member [name] of a structure with members [fs] stored in
    [b]: the bytes at [offsetof name], as many as the member's type takes.
    There is no such access for a name that is not a member, nor for a
    value of another size than the member's. *)
Definition load_member (fs : list (string * ctype)) (name : string)
  (b : buffer) : option (list byte) :=
  match lookup_member fs name with
  | Some (off, t) => load_bytes off (sizeof t) b
  | None => None
  end.

Definition store_member (fs : list (string * ctype)) (name : string)
  (bs : list byte) (b : buffer) : option buffer :=
  match lookup_member fs name with
  | Some (off, t) =>
      if length bs =? sizeof t then store_bytes off bs b else None
  | None => None
  end.

(** The six member accesses of [Uniforms] on its storage. *)
Definition load_projectionMatrix (b : buffer) : option matrix_float4x4 :=
  option_map decode_matrix (load_member Uniforms_fields "projectionMatrix" b).

Definition load_modelViewMatrix (b : buffer) : option matrix_float4x4 :=
  option_map decode_matrix (load_member Uniforms_fields "modelViewMatrix" b).

Definition load_color (b : buffer) : option vector_float4 :=
  option_map decode_vector (load_member Uniforms_fields "color" b).

Definition store_projectionMatrix (p : matrix_float4x4) (b : buffer) : option buffer :=
  store_member Uniforms_fields "projectionMatrix" (encode_matrix p) b.

Definition store_modelViewMatrix (m : matrix_float4x4) (b : buffer) : option buffer :=
  store_member Uniforms_fields "modelViewMatrix" (encode_matrix m) b.

Definition store_color (c : vector_float4) (b : buffer) : option buffer :=
  store_member Uniforms_fields "color" (encode_vector c) b.

(* ===================================================================== *)
(** ** Accesses, on values and on storage *)
(* ===================================================================== *)

(** The members of [Uniforms] and their names in the declaration. *)
Inductive member : Type :=
| MprojectionMatrix
| MmodelViewMatrix
| Mcolor.

Definition member_name (f : member) : string :=
  match f with
  | MprojectionMatrix => "projectionMatrix"
  | MmodelViewMatrix => "modelViewMatrix"
  | Mcolor => "color"
  end.

(** What host code can do with an instance: read a member, or write a
    member with a value of the member's type. *)
Inductive access : Type :=
| Read (f : member)
| WriteProjectionMatrix (p : matrix_float4x4)
| WriteModelViewMatrix (m : matrix_float4x4)
| WriteColor (c : vector_float4).

(** The member an access touches. *)
Definition accessed (a : access) : member :=
  match a with
  | Read f => f
  | WriteProjectionMatrix _ => MprojectionMatrix
  | WriteModelViewMatrix _ => MmodelViewMatrix
  | WriteColor _ => Mcolor
  end.

Definition is_read (a : access) : bool :=
  match a with
  | Read _ => true
  | _ => false
  end.

(** What an access evaluates to. *)
Inductive result : Type :=
| Rmatrix (m : matrix_float4x4)
| Rvector (v : vector_float4)
| Rwritten.

(** Reading a member of a value. *)
Definition get (f : member) (u : Uniforms) : result :=
  match f with
  | MprojectionMatrix => Rmatrix (projectionMatrix u)
  | MmodelViewMatrix => Rmatrix (modelViewMatrix u)
  | Mcolor => Rvector (color u)
  end.

(** An access on a value: its result and the value afterwards. *)
Definition access_record (a : access) (u : Uniforms) : result * Uniforms :=
  match a with
  | Read f => (get f u, u)
  | WriteProjectionMatrix p => (Rwritten, set_projectionMatrix u p)
  | WriteModelViewMatrix m => (Rwritten, set_modelViewMatrix u m)
  | WriteColor c => (Rwritten, set_color u c)
  end.

(** Reading a member from storage. *)
Definition load (f : member) (b : buffer) : option result :=
  match f with
  | MprojectionMatrix => option_map Rmatrix (load_projectionMatrix b)
  | MmodelViewMatrix => option_map Rmatrix (load_modelViewMatrix b)
  | Mcolor => option_map Rvector (load_color b)
  end.

(** An access on storage: its result and the storage afterwards, or
    [None] when a load or a store is not defined. *)
Definition access_buffer (a : access) (b : buffer) : option (result * buffer) :=
  match a with
  | Read f => option_map (fun r => (r, b)) (load f b)
  | WriteProjectionMatrix p =>
      option_map (fun b' => (Rwritten, b')) (store_projectionMatrix p b)
  | WriteModelViewMatrix m =>
      option_map (fun b' => (Rwritten, b')) (store_modelViewMatrix m b)
  | WriteColor c =>
      option_map (fun b' => (Rwritten, b')) (store_color c b)
  end.

(** A sequence of accesses, threading the storage; the results come in
    the order of the accesses. *)
Fixpoint run_buffer (prog : list access) (b : buffer)
  : option (list result * buffer) :=
  match prog with
  | [] => Some ([], b)
  | a :: rest =>
      match access_buffer a b with
      | Some (r, b1) =>
          match run_buffer rest b1 with
          | Some (rs, b2) => Some (r :: rs, b2)
          | None => None
          end
      | None => None
      end
  end.

(** A sequence of accesses on a value: the results, in order, and the
    value afterwards. *)
Fixpoint run_record (prog : list access) (u : Uniforms) : list result * Uniforms :=
  match prog with
  | [] => ([], u)
  | a :: rest =>
      let '(r, u1) := access_record a u in
      let '(rs, u2) := run_record rest u1 in
      (r :: rs, u2)
  end.

(** Storage for a new object of type [t] (the C object has indeterminate
    contents; they are zero here). *)
Definition alloc (t : ctype) : buffer := repeat Byte.x00 (sizeof t).

(** Construction of an instance from its three members:
    [Uniforms u; u.projectionMatrix = p; u.modelViewMatrix = m; u.color = c;] *)
Definition construct (p m : matrix_float4x4) (c : vector_float4) : option buffer :=
  match store_projectionMatrix p (alloc Uniforms_t) with
  | Some b1 =>
      match store_modelViewMatrix m b1 with
      | Some b2 => store_color c b2
      | None => None
      end
  | None => None
  end.

(* ===================================================================== *)
(** ** Several instances *)
(* ===================================================================== *)

(** The objects of a program, by variable name: each has storage of its
    own. *)
Definition store : Type := string -> option buffer.

Definition update (st : store) (x : string) (b : buffer) : store :=
  fun y => if String.eqb x y then Some b else st y.

(** [dst = src;] on structures copies the object representation of [src]
    into the storage of [dst]. *)
Definition assign (dst src : string) (st : store) : option store :=
  match st src with
  | Some b => Some (update st dst b)
  | None => None
  end.

(** An access to the instance held by variable [x]. *)
Definition access_var (x : string) (a : access) (st : store)
  : option (result * store) :=
  match st x with
  | Some b =>
      match access_buffer a b with
      | Some (r, b') => Some (r, update st x b')
      | None => None
      end
  | None => None
  end.

(** Reading member [f] of the instance held by [x]. *)
Definition read_var (x : string) (f : member) (st : store) : option result :=
  match st x with
  | Some b => load f b
  | None => None
  end.

(** The value an access writes to member [f], when it is a write to [f]. *)
Definition written_value (f : member) (a : access) : option result :=
  match a, f with
  | WriteProjectionMatrix p, MprojectionMatrix => Some (Rmatrix p)
  | WriteModelViewMatrix m, MmodelViewMatrix => Some (Rmatrix m)
  | WriteColor c, Mcolor => Some (Rvector c)
  | _, _ => None
  end.

(** The value of the last write to member [f] in a sequence of accesses,
    if the sequence writes to [f] at all. *)
Fixpoint last_write (f : member) (prog : list access) : option result :=
  match prog with
  | [] => None
  | a :: rest =>
      match last_write f rest with
      | Some v => Some v
      | None => written_value f a
      end
  end.

(* ===================================================================== *)
(** ** Sample data *)
(* ===================================================================== *)

(** The [float] with bit pattern [bits]. *)
Definition float32_of_bits (bits : Z) : float32 := word.of_Z bits.

(** [0.0f] and [1.0f]. *)
Definition zero_f : float32 := float32_of_bits 0.
Definition one_f : float32 := float32_of_bits 1065353216.

(** The identity matrix and an opaque red. *)
Definition matrix_identity : matrix_float4x4 :=
  {| column0 := mkVector one_f zero_f zero_f zero_f;
     column1 := mkVector zero_f one_f zero_f zero_f;
     column2 := mkVector zero_f zero_f one_f zero_f;
     column3 := mkVector zero_f zero_f zero_f one_f |}.

Definition opaque_red : vector_float4 := mkVector one_f zero_f zero_f one_f.

Definition sample_Uniforms : Uniforms :=
  {| projectionMatrix := matrix_identity;
     modelViewMatrix := matrix_identity;
     color := opaque_red |}.

(** A program state with one instance, held by the variable [a]. *)
Definition sample_store : store :=
  update (fun _ => None) "a" (encode_Uniforms sample_Uniforms).

(** The bytes of member [f] in storage [b]: the range the layout gives
    the member. *)
Definition member_bytes (f : member) (b : buffer) : list byte :=
  match f with
  | MprojectionMatrix => slice 0 64 b
  | MmodelViewMatrix => slice 64 64 b
  | Mcolor => slice 128 16 b
  end.

(** The value of member [f] that the bytes [bs] hold. *)
Definition decode_member (f : member) (bs : list byte) : result :=
  match f with
  | MprojectionMatrix => Rmatrix (decode_matrix bs)
  | MmodelViewMatrix => Rmatrix (decode_matrix bs)
  | Mcolor => Rvector (decode_vector bs)
  end.

(** Storage that holds an instance followed by other data: the sample
    instance with another projection matrix, then sixteen more bytes. *)
Definition sample_larger_buffer : buffer :=
  encode_Uniforms (set_projectionMatrix sample_Uniforms
                     (mkMatrix opaque_red opaque_red opaque_red opaque_red))
  ++ repeat Byte.xff 16.

(* ===================================================================== *)
(** ** Lists and slices *)
(* ===================================================================== *)

Lemma slice_mid (pre mid post : list byte) (off n : nat) :
  List.length pre = off -> List.length mid = n ->
  slice off n (pre ++ mid ++ post) = mid.
Proof.
  intros <- <-. unfold slice.
  rewrite skipn_app, skipn_all, Nat.sub_diag. cbn [skipn app].
  rewrite firstn_app, firstn_all, Nat.sub_diag. cbn [firstn].
  apply app_nil_r.
Qed.

Lemma slice_first (mid post : list byte) (n : nat) :
  List.length mid = n -> slice 0 n (mid ++ post) = mid.
Proof. intros H. apply (slice_mid [] mid post 0 n eq_refl H). Qed.

Lemma slice_last (pre mid : list byte) (off n : nat) :
  List.length pre = off -> List.length mid = n ->
  slice off n (pre ++ mid) = mid.
Proof.
  intros Hp Hm. rewrite <- (app_nil_r mid) at 1.
  now apply slice_mid.
Qed.

Lemma slice_length (off n : nat) (b : list byte) :
  off + n <= List.length b -> List.length (slice off n b) = n.
Proof.
  intros H. unfold slice. rewrite length_firstn, length_skipn. lia.
Qed.

Lemma firstn_plus (n k : nat) (l : list byte) :
  firstn n l ++ firstn k (skipn n l) = firstn (n + k) l.
Proof.
  revert l. induction n as [| n IH]; intros l; [reflexivity |].
  destruct l as [| x l]; cbn [firstn skipn app Nat.add].
  - now rewrite firstn_nil.
  - now rewrite IH.
Qed.

Lemma slice_app (off n k : nat) (b : list byte) :
  slice off n b ++ slice (off + n) k b = slice off (n + k) b.
Proof.
  unfold slice. rewrite Nat.add_comm, <- skipn_skipn. apply firstn_plus.
Qed.

Lemma slice_all (b : list byte) : slice 0 (List.length b) b = b.
Proof. unfold slice. cbn [skipn]. apply firstn_all. Qed.

Lemma load_bytes_mid (pre mid post : list byte) (off n : nat) :
  List.length pre = off -> List.length mid = n ->
  load_bytes off n (pre ++ mid ++ post) = Some mid.
Proof.
  intros Hp Hm. unfold load_bytes.
  rewrite !length_app, Hp, Hm.
  replace (off + n <=? off + (n + List.length post)) with true
    by (symmetry; apply Nat.leb_le; lia).
  now rewrite slice_mid.
Qed.

Lemma store_bytes_mid (pre mid post bs : list byte) (off : nat) :
  List.length pre = off -> List.length mid = List.length bs ->
  store_bytes off bs (pre ++ mid ++ post) = Some (pre ++ bs ++ post).
Proof.
  intros Hp Hm. unfold store_bytes.
  rewrite !length_app, Hp, Hm.
  replace (off + List.length bs <=? off + (List.length bs + List.length post))
    with true by (symmetry; apply Nat.leb_le; lia).
  f_equal. subst off.
  rewrite firstn_app, firstn_all, Nat.sub_diag. cbn [firstn].
  rewrite app_nil_r. f_equal. f_equal.
  rewrite skipn_app, skipn_all2 by lia. cbn [app].
  replace (List.length pre + List.length bs - List.length pre)
    with (List.length mid) by lia.
  rewrite skipn_app, skipn_all, Nat.sub_diag. reflexivity.
Qed.

Lemma load_bytes_first (mid post : list byte) (n : nat) :
  List.length mid = n -> load_bytes 0 n (mid ++ post) = Some mid.
Proof. intros H. exact (load_bytes_mid [] mid post 0 n eq_refl H). Qed.

Lemma load_bytes_last (pre mid : list byte) (off n : nat) :
  List.length pre = off -> List.length mid = n ->
  load_bytes off n (pre ++ mid) = Some mid.
Proof.
  intros Hp Hm. rewrite <- (app_nil_r mid) at 1. now apply load_bytes_mid.
Qed.

Lemma store_bytes_first (mid post bs : list byte) :
  List.length mid = List.length bs ->
  store_bytes 0 bs (mid ++ post) = Some (bs ++ post).
Proof. intros H. exact (store_bytes_mid [] mid post bs 0 eq_refl H). Qed.

Lemma store_bytes_last (pre mid bs : list byte) (off : nat) :
  List.length pre = off -> List.length mid = List.length bs ->
  store_bytes off bs (pre ++ mid) = Some (pre ++ bs).
Proof.
  intros Hp Hm.
  pose proof (store_bytes_mid pre mid [] bs off Hp Hm) as H.
  now rewrite !app_nil_r in H.
Qed.

Lemma load_bytes_Some (off n : nat) (b : buffer) :
  off + n <= List.length b -> load_bytes off n b = Some (slice off n b).
Proof.
  intros H. unfold load_bytes.
  now replace (off + n <=? List.length b) with true
    by (symmetry; apply Nat.leb_le; lia).
Qed.

(* ===================================================================== *)
(** ** The layout rule *)
(* ===================================================================== *)

Lemma layout_of_pair (t : ctype) : layout_of t = (sizeof t, alignof t).
Proof. unfold sizeof, alignof. now destruct (layout_of t). Qed.

Lemma layout_of_struct (fs : list (string * ctype)) :
  layout_of (Tstruct fs) = struct_layout_from 0 1 fs.
Proof.
  cbn [layout_of]. generalize 0 as off, 1 as al.
  induction fs as [| [name ft] rest IH]; intros off al; [reflexivity |].
  cbn [struct_layout_from]. rewrite <- IH.
  now rewrite (layout_of_pair ft).
Qed.

Lemma sizeof_vector_float4 : sizeof vector_float4_t = 16.
Proof. reflexivity. Qed.

Lemma alignof_vector_float4 : alignof vector_float4_t = 16.
Proof. reflexivity. Qed.

Lemma sizeof_matrix_float4x4 : sizeof matrix_float4x4_t = 64.
Proof. reflexivity. Qed.

Lemma alignof_matrix_float4x4 : alignof matrix_float4x4_t = 16.
Proof. reflexivity. Qed.

Lemma sizeof_Uniforms : sizeof Uniforms_t = 144.
Proof. reflexivity. Qed.

Lemma lookup_projectionMatrix :
  lookup_member Uniforms_fields "projectionMatrix" = Some (0, matrix_float4x4_t).
Proof. reflexivity. Qed.

Lemma lookup_modelViewMatrix :
  lookup_member Uniforms_fields "modelViewMatrix" = Some (64, matrix_float4x4_t).
Proof. reflexivity. Qed.

Lemma lookup_color :
  lookup_member Uniforms_fields "color" = Some (128, vector_float4_t).
Proof. reflexivity. Qed.

(* ===================================================================== *)
(** ** Encoding and decoding are inverse *)
(* ===================================================================== *)

Lemma encode_float32_length (f : float32) : List.length (encode_float32 f) = 4.
Proof. apply length_le_split. Qed.

Lemma encode_vector_length (v : vector_float4) : List.length (encode_vector v) = 16.
Proof.
  unfold encode_vector. now rewrite !length_app, !encode_float32_length.
Qed.

Lemma encode_matrix_length (m : matrix_float4x4) : List.length (encode_matrix m) = 64.
Proof.
  unfold encode_matrix. now rewrite !length_app, !encode_vector_length.
Qed.

Lemma encode_Uniforms_length (u : Uniforms) :
  List.length (encode_Uniforms u) = sizeof Uniforms_t.
Proof.
  unfold encode_Uniforms.
  now rewrite !length_app, !encode_matrix_length, encode_vector_length.
Qed.

Lemma decode_encode_float32 (f : float32) : decode_float32 (encode_float32 f) = f.
Proof.
  unfold decode_float32, encode_float32.
  rewrite le_combine_split.
  change (Z.of_nat 4 * 8)%Z with 32%Z.
  rewrite word.wrap_unsigned. apply word.of_Z_unsigned.
Qed.

Lemma encode_decode_float32 (bs : list byte) :
  List.length bs = 4 -> encode_float32 (decode_float32 bs) = bs.
Proof.
  intros H. unfold decode_float32, encode_float32.
  rewrite word.unsigned_of_Z. unfold word.wrap.
  pose proof (le_combine_bound bs) as Hb. rewrite H in Hb.
  change (8 * Z.of_nat 4)%Z with 32%Z in Hb.
  rewrite Z.mod_small by exact Hb.
  rewrite <- H. apply split_le_combine.
Qed.

(** The four parts of a concatenation of four blocks of [n] bytes. *)
Lemma slice_quad (a b c d : list byte) (n : nat) :
  List.length a = n -> List.length b = n ->
  List.length c = n -> List.length d = n ->
  slice 0 n (a ++ b ++ c ++ d) = a /\
  slice n n (a ++ b ++ c ++ d) = b /\
  slice (n + n) n (a ++ b ++ c ++ d) = c /\
  slice (n + n + n) n (a ++ b ++ c ++ d) = d.
Proof.
  intros Ha Hb Hc Hd. split; [| split; [| split]].
  - now apply slice_first.
  - now apply slice_mid.
  - rewrite (app_assoc a b). apply slice_mid; [| assumption].
    rewrite length_app. lia.
  - rewrite (app_assoc a b), (app_assoc (a ++ b) c).
    apply slice_last; [| assumption].
    rewrite !length_app. lia.
Qed.

Lemma decode_encode_vector (v : vector_float4) :
  decode_vector (encode_vector v) = v.
Proof.
  destruct v as [x y z w]. unfold decode_vector, encode_vector.
  cbn [vx vy vz vw].
  destruct (slice_quad (encode_float32 x) (encode_float32 y)
              (encode_float32 z) (encode_float32 w) 4)
    as (H0 & H1 & H2 & H3); try apply encode_float32_length.
  cbn [Nat.add] in H2, H3.
  rewrite H0, H1, H2, H3, !decode_encode_float32. reflexivity.
Qed.

Lemma encode_decode_vector (bs : list byte) :
  List.length bs = 16 -> encode_vector (decode_vector bs) = bs.
Proof.
  intros H. unfold decode_vector, encode_vector. cbn [vx vy vz vw].
  rewrite !encode_decode_float32 by (apply slice_length; lia).
  rewrite (slice_app 8 4 4), (slice_app 4 4 8), (slice_app 0 4 12).
  cbn [Nat.add]. rewrite <- H. apply slice_all.
Qed.

Lemma decode_encode_matrix (m : matrix_float4x4) :
  decode_matrix (encode_matrix m) = m.
Proof.
  destruct m as [c0 c1 c2 c3]. unfold decode_matrix, encode_matrix.
  cbn [column0 column1 column2 column3].
  destruct (slice_quad (encode_vector c0) (encode_vector c1)
              (encode_vector c2) (encode_vector c3) 16)
    as (H0 & H1 & H2 & H3); try apply encode_vector_length.
  cbn [Nat.add] in H2, H3.
  rewrite H0, H1, H2, H3, !decode_encode_vector. reflexivity.
Qed.

Lemma encode_decode_matrix (bs : list byte) :
  List.length bs = 64 -> encode_matrix (decode_matrix bs) = bs.
Proof.
  intros H. unfold decode_matrix, encode_matrix.
  cbn [column0 column1 column2 column3].
  rewrite !encode_decode_vector by (apply slice_length; lia).
  rewrite (slice_app 32 16 16), (slice_app 16 16 32), (slice_app 0 16 48).
  cbn [Nat.add]. rewrite <- H. apply slice_all.
Qed.

(** The three members of an encoded instance, each at its place. *)
Lemma slice_encode_Uniforms (u : Uniforms) :
  slice 0 64 (encode_Uniforms u) = encode_matrix (projectionMatrix u) /\
  slice 64 64 (encode_Uniforms u) = encode_matrix (modelViewMatrix u) /\
  slice 128 16 (encode_Uniforms u) = encode_vector (color u).
Proof.
  unfold encode_Uniforms. split; [| split].
  - apply slice_first, encode_matrix_length.
  - apply slice_mid; apply encode_matrix_length || apply encode_vector_length.
  - rewrite app_assoc. apply slice_last; [| apply encode_vector_length].
    now rewrite length_app, !encode_matrix_length.
Qed.

Lemma decode_encode_Uniforms (u : Uniforms) :
  decode_Uniforms (encode_Uniforms u) = u.
Proof.
  destruct (slice_encode_Uniforms u) as (H0 & H1 & H2).
  unfold decode_Uniforms. rewrite H0, H1, H2.
  rewrite !decode_encode_matrix, decode_encode_vector. now destruct u.
Qed.

Lemma encode_decode_Uniforms (b : buffer) :
  List.length b = sizeof Uniforms_t -> encode_Uniforms (decode_Uniforms b) = b.
Proof.
  rewrite sizeof_Uniforms. intros H.
  unfold decode_Uniforms, encode_Uniforms.
  cbn [projectionMatrix modelViewMatrix color].
  rewrite !encode_decode_matrix, encode_decode_vector
    by (apply slice_length; lia).
  rewrite (slice_app 64 64 16), (slice_app 0 64 80).
  cbn [Nat.add]. rewrite <- H. apply slice_all.
Qed.

(* ===================================================================== *)
(** ** Member accesses on the storage of an instance *)
(* ===================================================================== *)

Lemma load_projectionMatrix_encode (u : Uniforms) :
  load_projectionMatrix (encode_Uniforms u) = Some (projectionMatrix u).
Proof.
  unfold load_projectionMatrix, load_member.
  rewrite lookup_projectionMatrix, sizeof_matrix_float4x4.
  unfold encode_Uniforms.
  rewrite (load_bytes_first _ _ 64 (encode_matrix_length _)).
  cbn [option_map]. now rewrite decode_encode_matrix.
Qed.

Lemma load_modelViewMatrix_encode (u : Uniforms) :
  load_modelViewMatrix (encode_Uniforms u) = Some (modelViewMatrix u).
Proof.
  unfold load_modelViewMatrix, load_member.
  rewrite lookup_modelViewMatrix, sizeof_matrix_float4x4.
  unfold encode_Uniforms.
  rewrite (load_bytes_mid _ _ _ 64 64 (encode_matrix_length _)
             (encode_matrix_length _)).
  cbn [option_map]. now rewrite decode_encode_matrix.
Qed.

Lemma load_color_encode (u : Uniforms) :
  load_color (encode_Uniforms u) = Some (color u).
Proof.
  unfold load_color, load_member.
  rewrite lookup_color, sizeof_vector_float4.
  unfold encode_Uniforms.
  rewrite app_assoc, (load_bytes_last _ _ 128 16); cycle 1.
  - now rewrite length_app, !encode_matrix_length.
  - apply encode_vector_length.
  - cbn [option_map]. now rewrite decode_encode_vector.
Qed.

Lemma store_projectionMatrix_encode (u : Uniforms) (p : matrix_float4x4) :
  store_projectionMatrix p (encode_Uniforms u)
  = Some (encode_Uniforms (set_projectionMatrix u p)).
Proof.
  unfold store_projectionMatrix, store_member.
  rewrite lookup_projectionMatrix, sizeof_matrix_float4x4, encode_matrix_length.
  cbn [Nat.eqb]. unfold encode_Uniforms.
  apply store_bytes_first. now rewrite !encode_matrix_length.
Qed.

Lemma store_modelViewMatrix_encode (u : Uniforms) (m : matrix_float4x4) :
  store_modelViewMatrix m (encode_Uniforms u)
  = Some (encode_Uniforms (set_modelViewMatrix u m)).
Proof.
  unfold store_modelViewMatrix, store_member.
  rewrite lookup_modelViewMatrix, sizeof_matrix_float4x4, encode_matrix_length.
  cbn [Nat.eqb]. unfold encode_Uniforms.
  apply store_bytes_mid; now rewrite !encode_matrix_length.
Qed.

Lemma store_color_encode (u : Uniforms) (c : vector_float4) :
  store_color c (encode_Uniforms u) = Some (encode_Uniforms (set_color u c)).
Proof.
  unfold store_color, store_member.
  rewrite lookup_color, sizeof_vector_float4, encode_vector_length.
  cbn [Nat.eqb]. unfold encode_Uniforms.
  cbn [projectionMatrix modelViewMatrix color set_color].
  rewrite !app_assoc. apply store_bytes_last.
  - now rewrite length_app, !encode_matrix_length.
  - now rewrite !encode_vector_length.
Qed.

(** Accesses on the storage of [u] do what the accesses on [u] do. *)
Lemma load_encode (f : member) (u : Uniforms) :
  load f (encode_Uniforms u) = Some (get f u).
Proof.
  destruct f; unfold load, get.
  - now rewrite load_projectionMatrix_encode.
  - now rewrite load_modelViewMatrix_encode.
  - now rewrite load_color_encode.
Qed.

Lemma access_buffer_encode (a : access) (u : Uniforms) :
  access_buffer a (encode_Uniforms u)
  = Some (fst (access_record a u), encode_Uniforms (snd (access_record a u))).
Proof.
  destruct a as [f | p | m | c]; unfold access_buffer, access_record; cbn [fst snd].
  - now rewrite load_encode.
  - now rewrite store_projectionMatrix_encode.
  - now rewrite store_modelViewMatrix_encode.
  - now rewrite store_color_encode.
Qed.

(** Storage of the right size is the storage of exactly one value: no byte
    of an instance lies outside its three members. *)
Lemma buffer_is_encoding (b : buffer) :
  List.length b = sizeof Uniforms_t -> exists u, b = encode_Uniforms u.
Proof.
  intros H. exists (decode_Uniforms b). symmetry. now apply encode_decode_Uniforms.
Qed.

Lemma encode_Uniforms_inj (u v : Uniforms) :
  encode_Uniforms u = encode_Uniforms v -> u = v.
Proof.
  intros H. rewrite <- (decode_encode_Uniforms u), <- (decode_encode_Uniforms v).
  now rewrite H.
Qed.

(** The placement of the members depends on their types only, not on
    their names. *)
Lemma field_offsets_from_types (fs gs : list (string * ctype)) (off : nat) :
  map snd fs = map snd gs ->
  map snd (field_offsets_from off fs) = map snd (field_offsets_from off gs).
Proof.
  revert gs off.
  induction fs as [| [n t] fs IH]; intros [| [n' t'] gs] off H;
    try discriminate; [reflexivity |].
  cbn [map snd] in H. injection H as Ht Hrest. subst t'.
  cbn [field_offsets_from map snd]. f_equal. now apply IH.
Qed.

Lemma struct_layout_from_types (fs gs : list (string * ctype)) (off al : nat) :
  map snd fs = map snd gs ->
  struct_layout_from off al fs = struct_layout_from off al gs.
Proof.
  revert gs off al.
  induction fs as [| [n t] fs IH]; intros [| [n' t'] gs] off al H;
    try discriminate; [reflexivity |].
  cbn [map snd] in H. injection H as Ht Hrest. subst t'.
  cbn [struct_layout_from]. now apply IH.
Qed.

Lemma floats_of_encode_matrix (m : matrix_float4x4) :
  floats_of 16 (encode_matrix m) = column_major m.
Proof.
  destruct m as [[a0 a1 a2 a3] [b0 b1 b2 b3] [c0 c1 c2 c3] [d0 d1 d2 d3]].
  change (floats_of 16 _) with
    (map (fun f => decode_float32 (encode_float32 f))
       [a0; a1; a2; a3; b0; b1; b2; b3; c0; c1; c2; c3; d0; d1; d2; d3]).
  rewrite (map_ext _ (fun f => f) decode_encode_float32), map_id.
  reflexivity.
Qed.

Lemma floats_of_encode_vector (v : vector_float4) :
  floats_of 4 (encode_vector v) = [vx v; vy v; vz v; vw v].
Proof.
  destruct v as [x y z w].
  change (floats_of 4 _) with
    (map (fun f => decode_float32 (encode_float32 f)) [x; y; z; w]).
  now rewrite (map_ext _ (fun f => f) decode_encode_float32), map_id.
Qed.

(* ===================================================================== *)
(** ** The declaration *)
(* ===================================================================== *)

(** C1.  [Uniforms] is an aggregate of exactly three members, in the
    order [projectionMatrix], [modelViewMatrix], [color].  The first two
    are 4x4 matrices of 32-bit floats kept column after column, the third
    is a vector of four 32-bit floats, and a value holds nothing besides
    these three members. *)
Theorem Uniforms_three_members :
  Uniforms_t = Tstruct [ ("projectionMatrix"%string, matrix_float4x4_t);
                         ("modelViewMatrix"%string, matrix_float4x4_t);
                         ("color"%string, vector_float4_t) ] /\
  List.length Uniforms_fields = 3 /\
  matrix_float4x4_t = Tstruct [("columns"%string, Tarray (Tvector Tfloat 4) 4)] /\
  vector_float4_t = Tvector Tfloat 4 /\
  8 * sizeof Tfloat = 32 /\
  (forall u : Uniforms,
      u = mkUniforms (projectionMatrix u) (modelViewMatrix u) (color u)) /\
  (forall (p m : matrix_float4x4) (c : vector_float4),
      projectionMatrix (mkUniforms p m c) = p /\
      modelViewMatrix (mkUniforms p m c) = m /\
      color (mkUniforms p m c) = c) /\
  (forall u : Uniforms,
      floats_of 16 (slice 0 64 (encode_Uniforms u))
        = column_major (projectionMatrix u) /\
      floats_of 16 (slice 64 64 (encode_Uniforms u))
        = column_major (modelViewMatrix u) /\
      floats_of 4 (slice 128 16 (encode_Uniforms u))
        = [vx (color u); vy (color u); vz (color u); vw (color u)]) /\
  (forall m : matrix_float4x4,
      column_major m
      = [ matrix_elem m 0 0; matrix_elem m 1 0; matrix_elem m 2 0; matrix_elem m 3 0;
          matrix_elem m 0 1; matrix_elem m 1 1; matrix_elem m 2 1; matrix_elem m 3 1;
          matrix_elem m 0 2; matrix_elem m 1 2; matrix_elem m 2 2; matrix_elem m 3 2;
          matrix_elem m 0 3; matrix_elem m 1 3; matrix_elem m 2 3; matrix_elem m 3 3 ]).
Proof.
  repeat match goal with |- _ /\ _ => split end; try reflexivity.
  - intros u. now destruct u.
  - intros p m c. now repeat split.
  - intros u. destruct (slice_encode_Uniforms u) as (H0 & H1 & H2).
    rewrite H0, H1, H2, !floats_of_encode_matrix, floats_of_encode_vector.
    now repeat split.
Qed.

(** C2.  With [matrix_float4x4] taking 64 bytes at alignment 16 and
    [vector_float4] taking 16 bytes at alignment 16, the members of
    [Uniforms] sit at offsets 0, 64 and 128, the structure takes 144
    bytes at alignment 16 and no byte of it is padding.  The layout is a
    function of the member types in their order: any declaration of the
    same three member types in the same order, such as the shader's, gets
    the same offsets, size and alignment. *)
Theorem Uniforms_layout (mat vec : ctype) :
  sizeof mat = 64 -> alignof mat = 16 ->
  sizeof vec = 16 -> alignof vec = 16 ->
  field_offsets (Uniforms_members mat vec)
    = [ ("projectionMatrix"%string, 0);
        ("modelViewMatrix"%string, 64);
        ("color"%string, 128) ] /\
  offsetof (Uniforms_members mat vec) "projectionMatrix" = Some 0 /\
  offsetof (Uniforms_members mat vec) "modelViewMatrix" = Some 64 /\
  offsetof (Uniforms_members mat vec) "color" = Some 128 /\
  sizeof (Tstruct (Uniforms_members mat vec)) = 144 /\
  alignof (Tstruct (Uniforms_members mat vec)) = 16 /\
  struct_padding (Uniforms_members mat vec) = 0 /\
  (forall shader_side : list (string * ctype),
      map snd shader_side = map snd (Uniforms_members mat vec) ->
      map snd (field_offsets shader_side) = [0; 64; 128] /\
      sizeof (Tstruct shader_side) = 144 /\
      alignof (Tstruct shader_side) = 16).
Proof.
  intros Hsm Ham Hsv Hav.
  assert (Hoff : field_offsets (Uniforms_members mat vec)
                 = [ ("projectionMatrix"%string, 0);
                     ("modelViewMatrix"%string, 64);
                     ("color"%string, 128) ]).
  { unfold field_offsets, Uniforms_members. cbn [field_offsets_from].
    rewrite Hsm, Ham, Hav. reflexivity. }
  assert (Hlay : layout_of (Tstruct (Uniforms_members mat vec)) = (144, 16)).
  { rewrite layout_of_struct. unfold Uniforms_members. cbn [struct_layout_from].
    rewrite Hsm, Ham, Hsv, Hav. reflexivity. }
  split; [exact Hoff |].
  assert (Hlook : forall name : string,
             offsetof (Uniforms_members mat vec) name
             = if String.eqb "projectionMatrix" name then Some 0
               else if String.eqb "modelViewMatrix" name then Some 64
               else if String.eqb "color" name then Some 128
               else None).
  { intros name. unfold offsetof, lookup_member, Uniforms_members.
    cbn [lookup_member_from]. rewrite Hsm, Ham, Hav.
    repeat match goal with
           | |- context [String.eqb ?x name] => destruct (String.eqb x name)
           end; reflexivity. }
  split; [now rewrite Hlook |].
  split; [now rewrite Hlook |].
  split; [now rewrite Hlook |].
  split; [unfold sizeof; now rewrite Hlay |].
  split; [unfold alignof; now rewrite Hlay |].
  split.
  - unfold struct_padding, sizeof at 1. rewrite Hlay.
    unfold Uniforms_members. cbn [map snd list_sum].
    rewrite Hsm, Hsv. reflexivity.
  - intros shader_side Hty. split; [| split].
    + unfold field_offsets.
      rewrite (field_offsets_from_types _ _ 0 Hty).
      fold (field_offsets (Uniforms_members mat vec)). now rewrite Hoff.
    + unfold sizeof.
      now rewrite layout_of_struct, (struct_layout_from_types _ _ 0 1 Hty),
        <- layout_of_struct, Hlay.
    + unfold alignof.
      now rewrite layout_of_struct, (struct_layout_from_types _ _ 0 1 Hty),
        <- layout_of_struct, Hlay.
Qed.

Lemma Uniforms_layout_witness :
  (sizeof matrix_float4x4_t = 64 /\ alignof matrix_float4x4_t = 16 /\
   sizeof vector_float4_t = 16 /\ alignof vector_float4_t = 16) /\
  field_offsets Uniforms_fields
    = [ ("projectionMatrix"%string, 0);
        ("modelViewMatrix"%string, 64);
        ("color"%string, 128) ] /\
  sizeof Uniforms_t = 144 /\
  alignof Uniforms_t = 16 /\
  struct_padding Uniforms_fields = 0.
Proof.
  split; [repeat split |].
  destruct (Uniforms_layout matrix_float4x4_t vector_float4_t
              eq_refl eq_refl eq_refl eq_refl)
    as (Ho & _ & _ & _ & Hs & Ha & Hp & _).
  exact (conj Ho (conj Hs (conj Ha Hp))).
Defined.

(** The storage of an instance follows the layout: it is as long as
    [sizeof] says, and each member's bytes are found at its offset. *)
Lemma encode_Uniforms_layout (u : Uniforms) :
  List.length (encode_Uniforms u) = sizeof Uniforms_t /\
  load_member Uniforms_fields "projectionMatrix" (encode_Uniforms u)
    = Some (encode_matrix (projectionMatrix u)) /\
  load_member Uniforms_fields "modelViewMatrix" (encode_Uniforms u)
    = Some (encode_matrix (modelViewMatrix u)) /\
  load_member Uniforms_fields "color" (encode_Uniforms u)
    = Some (encode_vector (color u)).
Proof.
  destruct (slice_encode_Uniforms u) as (H0 & H1 & H2).
  pose proof (encode_Uniforms_length u) as Hlen.
  rewrite sizeof_Uniforms in Hlen.
  split; [apply encode_Uniforms_length |].
  unfold load_member.
  rewrite lookup_projectionMatrix, lookup_modelViewMatrix, lookup_color.
  rewrite sizeof_matrix_float4x4, sizeof_vector_float4.
  rewrite !load_bytes_Some by (rewrite Hlen; lia).
  now rewrite H0, H1, H2.
Qed.

(* ===================================================================== *)
(** ** Reading and writing the members *)
(* ===================================================================== *)

(** A sequence of accesses on the storage of [u] never fails and does what
    the same accesses do on the value. *)
Lemma run_buffer_encode (prog : list access) (u : Uniforms) :
  run_buffer prog (encode_Uniforms u)
  = Some (fst (run_record prog u), encode_Uniforms (snd (run_record prog u))).
Proof.
  revert u. induction prog as [| a rest IH]; intros u; [reflexivity |].
  cbn [run_buffer run_record].
  rewrite access_buffer_encode.
  destruct (access_record a u) as [r u1]. cbn [fst snd].
  rewrite IH. now destruct (run_record rest u1).
Qed.

(** C3.  Whatever an instance holds, after [projectionMatrix] is written
    with [p], [modelViewMatrix] with [m] and [color] with [c], reading the
    three members gives back [p], [m] and [c]: on the storage, where the
    three stores and the three loads all succeed, and on the value. *)
Theorem write_then_read_roundtrip
  (u : Uniforms) (p m : matrix_float4x4) (c : vector_float4) :
  (exists b : buffer,
      store_projectionMatrix p (encode_Uniforms u) = Some b /\
      exists b' : buffer,
        store_modelViewMatrix m b = Some b' /\
        exists b'' : buffer,
          store_color c b' = Some b'' /\
          load_projectionMatrix b'' = Some p /\
          load_modelViewMatrix b'' = Some m /\
          load_color b'' = Some c) /\
  run_buffer [ WriteProjectionMatrix p; WriteModelViewMatrix m; WriteColor c;
               Read MprojectionMatrix; Read MmodelViewMatrix; Read Mcolor ]
             (encode_Uniforms u)
  = Some ([ Rwritten; Rwritten; Rwritten; Rmatrix p; Rmatrix m; Rvector c ],
          encode_Uniforms (mkUniforms p m c)) /\
  projectionMatrix (set_color (set_modelViewMatrix (set_projectionMatrix u p) m) c) = p /\
  modelViewMatrix (set_color (set_modelViewMatrix (set_projectionMatrix u p) m) c) = m /\
  color (set_color (set_modelViewMatrix (set_projectionMatrix u p) m) c) = c.
Proof.
  split; [| split; [| now repeat split]].
  - eexists. split; [apply store_projectionMatrix_encode |].
    eexists. split; [apply store_modelViewMatrix_encode |].
    eexists. split; [apply store_color_encode |].
    now rewrite load_projectionMatrix_encode, load_modelViewMatrix_encode,
      load_color_encode.
  - now rewrite run_buffer_encode.
Qed.

(** C4.  No operation on an instance fails: construction from three
    member values yields storage of the size of [Uniforms], and on such
    storage, whatever it holds, every read and every write of a member is
    defined and leaves storage of the same size, and so is every sequence
    of them. *)
Theorem Uniforms_operations_total :
  (forall (p m : matrix_float4x4) (c : vector_float4),
      construct p m c = Some (encode_Uniforms (mkUniforms p m c))) /\
  (forall (u : Uniforms) (a : access),
      exists (r : result) (u' : Uniforms),
        access_buffer a (encode_Uniforms u) = Some (r, encode_Uniforms u')) /\
  (forall (u : Uniforms) (prog : list access),
      exists (rs : list result) (u' : Uniforms),
        run_buffer prog (encode_Uniforms u) = Some (rs, encode_Uniforms u') /\
        List.length rs = List.length prog) /\
  (forall (b : buffer) (a : access),
      List.length b = sizeof Uniforms_t ->
      exists (r : result) (b' : buffer),
        access_buffer a b = Some (r, b') /\
        List.length b' = sizeof Uniforms_t).
Proof.
  assert (Hacc : forall (u : Uniforms) (a : access),
             exists (r : result) (u' : Uniforms),
               access_buffer a (encode_Uniforms u) = Some (r, encode_Uniforms u')).
  { intros u a. rewrite access_buffer_encode. eauto. }
  split; [| split; [exact Hacc | split]].
  - intros p m c. unfold construct.
    destruct (buffer_is_encoding (alloc Uniforms_t)) as [u0 Hu0];
      [apply repeat_length |].
    rewrite Hu0, store_projectionMatrix_encode, store_modelViewMatrix_encode,
      store_color_encode.
    reflexivity.
  - intros u prog. rewrite run_buffer_encode.
    do 2 eexists. split; [reflexivity |].
    revert u. induction prog as [| a rest IH]; intros u; [reflexivity |].
    cbn [run_record]. destruct (access_record a u) as [r u1].
    specialize (IH u1). destruct (run_record rest u1) as [rs u2].
    cbn [fst List.length] in *. now rewrite IH.
  - intros b a Hlen. destruct (buffer_is_encoding b Hlen) as [u ->].
    destruct (Hacc u a) as (r & u' & H).
    exists r, (encode_Uniforms u'). split; [exact H |].
    apply encode_Uniforms_length.
Qed.

Lemma update_same (st : store) (x : string) (b : buffer) :
  update st x b x = Some b.
Proof. unfold update. now rewrite String.eqb_refl. Qed.

Lemma update_other (st : store) (x y : string) (b : buffer) :
  String.eqb x y = false -> update st x b y = st y.
Proof. intros H. unfold update. now rewrite H. Qed.

Lemma run_record_reads (prog : list access) (u : Uniforms) :
  forallb is_read prog = true ->
  run_record prog u = (map (fun a => get (accessed a) u) prog, u).
Proof.
  induction prog as [| a rest IH]; intros H; [reflexivity |].
  cbn [forallb] in H. apply andb_prop in H. destruct H as [Ha Hrest].
  destruct a as [f | p | m | c]; try discriminate.
  cbn [run_record access_record map accessed]. now rewrite (IH Hrest).
Qed.

(** C6.  Reading has no effect on the instance: a read of any member
    succeeds and leaves the storage, hence the three members, as they
    were; so through any sequence of reads the storage stays the same and
    every read of a member returns the value that member had at the
    start. *)
Theorem reading_is_side_effect_free (u : Uniforms) (prog : list access) :
  forallb is_read prog = true ->
  run_buffer prog (encode_Uniforms u)
  = Some (map (fun a => get (accessed a) u) prog, encode_Uniforms u) /\
  (forall f : member,
      access_buffer (Read f) (encode_Uniforms u)
      = Some (get f u, encode_Uniforms u)) /\
  (forall f : member, access_record (Read f) u = (get f u, u)) /\
  (forall f g : member,
      exists b : buffer,
        access_buffer (Read f) (encode_Uniforms u) = Some (get f u, b) /\
        load g b = Some (get g u)).
Proof.
  intros Hreads. split; [| split; [| split]].
  - now rewrite run_buffer_encode, (run_record_reads prog u Hreads).
  - intros f. now rewrite access_buffer_encode.
  - reflexivity.
  - intros f g. exists (encode_Uniforms u). split.
    + now rewrite access_buffer_encode.
    + apply load_encode.
Qed.

Lemma reading_is_side_effect_free_witness :
  forallb is_read [Read Mcolor; Read MprojectionMatrix; Read Mcolor] = true /\
  run_buffer [Read Mcolor; Read MprojectionMatrix; Read Mcolor]
             (encode_Uniforms sample_Uniforms)
  = Some ([Rvector opaque_red; Rmatrix matrix_identity; Rvector opaque_red],
          encode_Uniforms sample_Uniforms).
Proof.
  split; [reflexivity |].
  exact (proj1 (reading_is_side_effect_free sample_Uniforms
                  [Read Mcolor; Read MprojectionMatrix; Read Mcolor] eq_refl)).
Defined.

(** C7.  The members are updated independently: writing [color] leaves
    [projectionMatrix] and [modelViewMatrix] as they were, writing
    [projectionMatrix] leaves [modelViewMatrix] and [color], and writing
    [modelViewMatrix] leaves [projectionMatrix] and [color]; on the
    storage, where each store succeeds, and on the value. *)
Theorem member_writes_are_independent
  (u : Uniforms) (p m : matrix_float4x4) (c : vector_float4) :
  (exists b : buffer,
      store_color c (encode_Uniforms u) = Some b /\
      load_projectionMatrix b = Some (projectionMatrix u) /\
      load_modelViewMatrix b = Some (modelViewMatrix u)) /\
  (exists b : buffer,
      store_projectionMatrix p (encode_Uniforms u) = Some b /\
      load_modelViewMatrix b = Some (modelViewMatrix u) /\
      load_color b = Some (color u)) /\
  (exists b : buffer,
      store_modelViewMatrix m (encode_Uniforms u) = Some b /\
      load_projectionMatrix b = Some (projectionMatrix u) /\
      load_color b = Some (color u)) /\
  (projectionMatrix (set_color u c) = projectionMatrix u /\
   modelViewMatrix (set_color u c) = modelViewMatrix u) /\
  (modelViewMatrix (set_projectionMatrix u p) = modelViewMatrix u /\
   color (set_projectionMatrix u p) = color u) /\
  (projectionMatrix (set_modelViewMatrix u m) = projectionMatrix u /\
   color (set_modelViewMatrix u m) = color u).
Proof.
  split; [| split; [| split; [| now repeat split]]].
  - eexists. split; [apply store_color_encode |].
    now rewrite load_projectionMatrix_encode, load_modelViewMatrix_encode.
  - eexists. split; [apply store_projectionMatrix_encode |].
    now rewrite load_modelViewMatrix_encode, load_color_encode.
  - eexists. split; [apply store_modelViewMatrix_encode |].
    now rewrite load_projectionMatrix_encode, load_color_encode.
Qed.

(* ===================================================================== *)
(** ** Copies *)
(* ===================================================================== *)

Lemma read_var_encode (st : store) (x : string) (u : Uniforms) (f : member) :
  st x = Some (encode_Uniforms u) -> read_var x f st = Some (get f u).
Proof. intros H. unfold read_var. rewrite H. apply load_encode. Qed.

Lemma access_var_encode (st : store) (x : string) (u : Uniforms) (a : access) :
  st x = Some (encode_Uniforms u) ->
  access_var x a st
  = Some (fst (access_record a u),
          update st x (encode_Uniforms (snd (access_record a u)))).
Proof.
  intros H. unfold access_var. now rewrite H, access_buffer_encode.
Qed.

(** C8.  [Uniforms] is copied by value.  After [b = a], with [b] an
    object other than [a], the storage of [b] holds the same bytes as the
    storage of [a], so each member of [b] reads as the member of [a]; and
    from then on a write to a member of [b] leaves every member of [a] as
    it was, and a write to a member of [a] leaves every member of [b] as
    it was. *)
Theorem assignment_copies_the_value
  (st : store) (a b : string) (u : Uniforms) :
  st a = Some (encode_Uniforms u) ->
  String.eqb a b = false ->
  exists st1 : store,
    assign b a st = Some st1 /\
    st1 b = st1 a /\
    st1 a = Some (encode_Uniforms u) /\
    (forall f : member,
        read_var b f st1 = Some (get f u) /\
        read_var a f st1 = Some (get f u)) /\
    (forall w : access,
        exists (r : result) (st2 : store),
          access_var b w st1 = Some (r, st2) /\
          st2 b = Some (encode_Uniforms (snd (access_record w u))) /\
          st2 a = Some (encode_Uniforms u) /\
          forall f : member, read_var a f st2 = Some (get f u)) /\
    (forall w : access,
        exists (r : result) (st2 : store),
          access_var a w st1 = Some (r, st2) /\
          st2 a = Some (encode_Uniforms (snd (access_record w u))) /\
          st2 b = Some (encode_Uniforms u) /\
          forall f : member, read_var b f st2 = Some (get f u)).
Proof.
  intros Ha Hab.
  assert (Hba : String.eqb b a = false) by now rewrite String.eqb_sym.
  exists (update st b (encode_Uniforms u)).
  assert (H1b : update st b (encode_Uniforms u) b = Some (encode_Uniforms u))
    by apply update_same.
  assert (H1a : update st b (encode_Uniforms u) a = Some (encode_Uniforms u))
    by now rewrite update_other.
  split; [unfold assign; now rewrite Ha |].
  split; [now rewrite H1a, H1b |].
  split; [exact H1a |].
  split; [intros f; split; now apply read_var_encode |].
  split; intros w.
  - rewrite (access_var_encode _ b u w H1b). do 2 eexists.
    split; [reflexivity |].
    split; [apply update_same |].
    assert (H2a : update (update st b (encode_Uniforms u)) b
                    (encode_Uniforms (snd (access_record w u))) a
                  = Some (encode_Uniforms u))
      by now rewrite update_other.
    split; [exact H2a |].
    intros f. now apply read_var_encode.
  - rewrite (access_var_encode _ a u w H1a). do 2 eexists.
    split; [reflexivity |].
    split; [apply update_same |].
    assert (H2b : update (update st b (encode_Uniforms u)) a
                    (encode_Uniforms (snd (access_record w u))) b
                  = Some (encode_Uniforms u))
      by now rewrite update_other.
    split; [exact H2b |].
    intros f. now apply read_var_encode.
Qed.

Lemma assignment_copies_the_value_witness :
  (sample_store "a"%string = Some (encode_Uniforms sample_Uniforms) /\
   String.eqb "a" "b" = false) /\
  exists st1 : store,
    assign "b" "a" sample_store = Some st1 /\
    st1 "b"%string = st1 "a"%string /\
    forall w : access,
      exists (r : result) (st2 : store),
        access_var "b" w st1 = Some (r, st2) /\
        forall f : member, read_var "a" f st2 = Some (get f sample_Uniforms).
Proof.
  split; [split; reflexivity |].
  destruct (assignment_copies_the_value sample_store "a" "b" sample_Uniforms
              eq_refl eq_refl) as (st1 & Hassign & Hsame & _ & _ & Hb & _).
  exists st1. split; [exact Hassign |]. split; [exact Hsame |].
  intros w. destruct (Hb w) as (r & st2 & Hacc & _ & _ & Hread).
  exists r, st2. exact (conj Hacc Hread).
Defined.

(* ===================================================================== *)
(** ** What a read depends on *)
(* ===================================================================== *)

Lemma load_member_bytes (f : member) (b : buffer) :
  sizeof Uniforms_t <= List.length b ->
  load_member Uniforms_fields (member_name f) b = Some (member_bytes f b).
Proof.
  rewrite sizeof_Uniforms. intros Hlen.
  destruct f; unfold load_member, member_name, member_bytes.
  - rewrite lookup_projectionMatrix, sizeof_matrix_float4x4.
    apply load_bytes_Some. lia.
  - rewrite lookup_modelViewMatrix, sizeof_matrix_float4x4.
    apply load_bytes_Some. lia.
  - rewrite lookup_color, sizeof_vector_float4.
    apply load_bytes_Some. lia.
Qed.

Lemma load_decode_member (f : member) (b : buffer) :
  sizeof Uniforms_t <= List.length b ->
  load f b = Some (decode_member f (member_bytes f b)).
Proof.
  intros Hlen. pose proof (load_member_bytes f b Hlen) as H.
  destruct f; unfold load, load_projectionMatrix, load_modelViewMatrix,
    load_color; cbn [member_name] in H; now rewrite H.
Qed.

(** The bytes of a member are determined by the value they hold. *)
Lemma decode_member_inj (f : member) (b1 b2 : buffer) :
  sizeof Uniforms_t <= List.length b1 ->
  sizeof Uniforms_t <= List.length b2 ->
  decode_member f (member_bytes f b1) = decode_member f (member_bytes f b2) ->
  member_bytes f b1 = member_bytes f b2.
Proof.
  rewrite sizeof_Uniforms. intros H1 H2 Heq.
  destruct f; cbn [decode_member member_bytes] in *.
  - assert (Hm : decode_matrix (slice 0 64 b1) = decode_matrix (slice 0 64 b2))
      by congruence.
    rewrite <- (encode_decode_matrix (slice 0 64 b1)),
      <- (encode_decode_matrix (slice 0 64 b2))
      by (apply slice_length; lia).
    now rewrite Hm.
  - assert (Hm : decode_matrix (slice 64 64 b1) = decode_matrix (slice 64 64 b2))
      by congruence.
    rewrite <- (encode_decode_matrix (slice 64 64 b1)),
      <- (encode_decode_matrix (slice 64 64 b2))
      by (apply slice_length; lia).
    now rewrite Hm.
  - assert (Hv : decode_vector (slice 128 16 b1) = decode_vector (slice 128 16 b2))
      by congruence.
    rewrite <- (encode_decode_vector (slice 128 16 b1)),
      <- (encode_decode_vector (slice 128 16 b2))
      by (apply slice_length; lia).
    now rewrite Hv.
Qed.

Lemma get_access_record (f : member) (a : access) (u : Uniforms) :
  get f (snd (access_record a u))
  = match written_value f a with
    | Some v => v
    | None => get f u
    end.
Proof. now destruct a, f. Qed.

Lemma get_run_record (f : member) (prog : list access) (u : Uniforms) :
  get f (snd (run_record prog u))
  = match last_write f prog with
    | Some v => v
    | None => get f u
    end.
Proof.
  revert u. induction prog as [| a rest IH]; intros u; [reflexivity |].
  cbn [run_record last_write].
  pose proof (get_access_record f a u) as Ha.
  destruct (access_record a u) as [r u1]. cbn [snd] in Ha.
  specialize (IH u1). destruct (run_record rest u1) as [rs u2].
  cbn [snd] in *. rewrite IH.
  destruct (last_write f rest); [reflexivity | exact Ha].
Qed.

Lemma run_record_app (p1 p2 : list access) (u : Uniforms) :
  run_record (p1 ++ p2) u
  = (fst (run_record p1 u) ++ fst (run_record p2 (snd (run_record p1 u))),
     snd (run_record p2 (snd (run_record p1 u)))).
Proof.
  revert u. induction p1 as [| a rest IH]; intros u.
  - cbn [app run_record fst snd]. now destruct (run_record p2 u).
  - cbn [app run_record]. destruct (access_record a u) as [r u1].
    rewrite IH. destruct (run_record rest u1) as [rs u2]. reflexivity.
Qed.

(** C9.  What a read of a member returns is decided by the bytes stored
    for that member and by nothing else.  Take two storages that hold an
    instance each, possibly followed by other data.  The read of a member
    is defined on both and returns the value its bytes hold; the two
    reads agree exactly when the bytes of that member agree, whatever the
    other members, the bytes after the instance and the lengths are; so
    instances equal member for member give equal results for every read,
    and the read through a variable is the same in any two program states
    whose storage for that variable agrees on the member, whatever else
    the states hold.  Two reads of a member of one instance return the
    same value when the member is not written in between, whatever is
    read or written to the other members meanwhile. *)
Theorem member_read_depends_only_on_its_bytes (b1 b2 : buffer) :
  sizeof Uniforms_t <= List.length b1 ->
  sizeof Uniforms_t <= List.length b2 ->
  (forall f : member,
      load_member Uniforms_fields (member_name f) b1 = Some (member_bytes f b1) /\
      load f b1 = Some (decode_member f (member_bytes f b1))) /\
  (forall f : member,
      member_bytes f b1 = member_bytes f b2 <-> load f b1 = load f b2) /\
  ((forall f : member, member_bytes f b1 = member_bytes f b2) ->
   forall f : member, load f b1 = load f b2) /\
  (forall (st1 st2 : store) (x : string) (f : member),
      st1 x = Some b1 -> st2 x = Some b2 ->
      member_bytes f b1 = member_bytes f b2 ->
      read_var x f st1 = read_var x f st2) /\
  (forall (u : Uniforms) (f : member) (prog : list access),
      last_write f prog = None ->
      exists (rs : list result) (b : buffer),
        run_buffer (Read f :: prog ++ [Read f]) (encode_Uniforms u)
        = Some (get f u :: rs ++ [get f u], b)).
Proof.
  intros H1 H2.
  assert (Hiff : forall f : member,
             member_bytes f b1 = member_bytes f b2 <-> load f b1 = load f b2).
  { intros f. rewrite (load_decode_member f b1 H1), (load_decode_member f b2 H2).
    split.
    - intros Heq. now rewrite Heq.
    - intros Heq. apply decode_member_inj; congruence. }
  split; [| split; [exact Hiff | split; [| split]]].
  - intros f. split; [now apply load_member_bytes | now apply load_decode_member].
  - intros Hall f. apply Hiff, Hall.
  - intros st1 st2 x f Hx1 Hx2 Heq. unfold read_var. rewrite Hx1, Hx2.
    now apply Hiff.
  - intros u f prog Hnone. rewrite run_buffer_encode.
    cbn [run_record access_record]. rewrite run_record_app.
    cbn [run_record access_record fst snd app].
    pose proof (get_run_record f prog u) as Hget. rewrite Hnone in Hget.
    rewrite Hget. do 2 eexists. reflexivity.
Qed.

Lemma member_read_depends_only_on_its_bytes_witness :
  (sizeof Uniforms_t <= List.length (encode_Uniforms sample_Uniforms) /\
   sizeof Uniforms_t <= List.length sample_larger_buffer) /\
  encode_Uniforms sample_Uniforms <> sample_larger_buffer /\
  load Mcolor (encode_Uniforms sample_Uniforms) = load Mcolor sample_larger_buffer.
Proof.
  assert (Ha : sizeof Uniforms_t <= List.length (encode_Uniforms sample_Uniforms))
    by (apply Nat.leb_le; reflexivity).
  assert (Hb : sizeof Uniforms_t <= List.length sample_larger_buffer)
    by (apply Nat.leb_le; reflexivity).
  split; [exact (conj Ha Hb) |]. split.
  - intros Heq. apply (f_equal (@List.length byte)) in Heq. discriminate Heq.
  - exact (proj1 (proj1 (proj2 (member_read_depends_only_on_its_bytes
                                  (encode_Uniforms sample_Uniforms)
                                  sample_larger_buffer Ha Hb)) Mcolor)
             eq_refl).
Defined.

(* ===================================================================== *)
(** ** Further properties of the storage of an instance *)
(* ===================================================================== *)

(** X1.  The storage of an instance determines it: decoding the bytes of
    a value gives the value back, so two values with the same bytes are
    the same value. *)
Theorem storage_determines_the_value :
  (forall u : Uniforms, decode_Uniforms (encode_Uniforms u) = u) /\
  (forall u v : Uniforms, encode_Uniforms u = encode_Uniforms v -> u = v) /\
  (forall u : Uniforms,
      decode_matrix (slice 0 64 (encode_Uniforms u)) = projectionMatrix u /\
      decode_matrix (slice 64 64 (encode_Uniforms u)) = modelViewMatrix u /\
      decode_vector (slice 128 16 (encode_Uniforms u)) = color u).
Proof.
  split; [exact decode_encode_Uniforms |].
  split; [exact encode_Uniforms_inj |].
  intros u. destruct (slice_encode_Uniforms u) as (H0 & H1 & H2).
  rewrite H0, H1, H2.
  now rewrite !decode_encode_matrix, decode_encode_vector.
Qed.

(** X2.  Every buffer of [sizeof (Uniforms)] bytes, whatever it holds, is
    the storage of the value it decodes to: the three members account for
    all of its bytes. *)
Theorem every_buffer_is_an_instance (b : buffer) :
  List.length b = sizeof Uniforms_t ->
  encode_Uniforms (decode_Uniforms b) = b /\
  slice 0 64 b ++ slice 64 64 b ++ slice 128 16 b = b /\
  (forall f : member, load f b = Some (get f (decode_Uniforms b))).
Proof.
  intros Hlen. pose proof (encode_decode_Uniforms b Hlen) as Henc.
  split; [exact Henc |]. split.
  - rewrite sizeof_Uniforms in Hlen.
    rewrite (slice_app 64 64 16), (slice_app 0 64 80). cbn [Nat.add].
    rewrite <- Hlen. apply slice_all.
  - intros f. rewrite <- Henc at 1. apply load_encode.
Qed.

Lemma every_buffer_is_an_instance_witness :
  List.length (alloc Uniforms_t) = sizeof Uniforms_t /\
  encode_Uniforms (decode_Uniforms (alloc Uniforms_t)) = alloc Uniforms_t.
Proof.
  split; [reflexivity |].
  exact (proj1 (every_buffer_is_an_instance (alloc Uniforms_t) eq_refl)).
Defined.

(** X3.  A second write to a member replaces the first: writing a member
    twice leaves the storage that the second write alone would leave. *)
Theorem second_write_replaces_the_first
  (u : Uniforms) (p1 p2 m1 m2 : matrix_float4x4) (c1 c2 : vector_float4) :
  (exists b : buffer,
      store_projectionMatrix p1 (encode_Uniforms u) = Some b /\
      store_projectionMatrix p2 b = store_projectionMatrix p2 (encode_Uniforms u) /\
      store_projectionMatrix p2 b <> None) /\
  (exists b : buffer,
      store_modelViewMatrix m1 (encode_Uniforms u) = Some b /\
      store_modelViewMatrix m2 b = store_modelViewMatrix m2 (encode_Uniforms u) /\
      store_modelViewMatrix m2 b <> None) /\
  (exists b : buffer,
      store_color c1 (encode_Uniforms u) = Some b /\
      store_color c2 b = store_color c2 (encode_Uniforms u) /\
      store_color c2 b <> None).
Proof.
  split; [| split].
  - eexists. split; [apply store_projectionMatrix_encode |].
    rewrite !store_projectionMatrix_encode. now split.
  - eexists. split; [apply store_modelViewMatrix_encode |].
    rewrite !store_modelViewMatrix_encode. now split.
  - eexists. split; [apply store_color_encode |].
    rewrite !store_color_encode. now split.
Qed.

(** X4.  Writes to two different members can be done in either order:
    both orders succeed and leave the same storage. *)
Theorem writes_to_different_members_commute
  (u : Uniforms) (p m : matrix_float4x4) (c : vector_float4) :
  (exists b1 b2 b : buffer,
      store_projectionMatrix p (encode_Uniforms u) = Some b1 /\
      store_modelViewMatrix m (encode_Uniforms u) = Some b2 /\
      store_modelViewMatrix m b1 = Some b /\
      store_projectionMatrix p b2 = Some b) /\
  (exists b1 b2 b : buffer,
      store_projectionMatrix p (encode_Uniforms u) = Some b1 /\
      store_color c (encode_Uniforms u) = Some b2 /\
      store_color c b1 = Some b /\
      store_projectionMatrix p b2 = Some b) /\
  (exists b1 b2 b : buffer,
      store_modelViewMatrix m (encode_Uniforms u) = Some b1 /\
      store_color c (encode_Uniforms u) = Some b2 /\
      store_color c b1 = Some b /\
      store_modelViewMatrix m b2 = Some b).
Proof.
  split; [| split]; do 3 eexists.
  - split; [apply store_projectionMatrix_encode |].
    split; [apply store_modelViewMatrix_encode |].
    split; [apply store_modelViewMatrix_encode |].
    apply store_projectionMatrix_encode.
  - split; [apply store_projectionMatrix_encode |].
    split; [apply store_color_encode |].
    split; [apply store_color_encode |].
    apply store_projectionMatrix_encode.
  - split; [apply store_modelViewMatrix_encode |].
    split; [apply store_color_encode |].
    split; [apply store_color_encode |].
    apply store_modelViewMatrix_encode.
Qed.

(** X5.  After any sequence of reads and writes, which always runs to the
    end, each member holds the value of the last write to it in the
    sequence, and the value it had at the start when the sequence does not
    write to it. *)
Theorem members_hold_their_last_write (u : Uniforms) (prog : list access) :
  exists (rs : list result) (b : buffer),
    run_buffer prog (encode_Uniforms u) = Some (rs, b) /\
    forall f : member,
      load f b = Some (match last_write f prog with
                       | Some v => v
                       | None => get f u
                       end).
Proof.
  rewrite run_buffer_encode. do 2 eexists. split; [reflexivity |].
  intros f. now rewrite load_encode, get_run_record.
Qed.

(** X6.  Writing back to a member the value just read from it changes
    nothing: on storage of the size of [Uniforms], whatever it holds, each
    member can be read, and storing the value read leaves every byte as it
    was. *)
Theorem write_back_changes_nothing (b : buffer) :
  List.length b = sizeof Uniforms_t ->
  (exists p : matrix_float4x4,
      load_projectionMatrix b = Some p /\ store_projectionMatrix p b = Some b) /\
  (exists m : matrix_float4x4,
      load_modelViewMatrix b = Some m /\ store_modelViewMatrix m b = Some b) /\
  (exists c : vector_float4,
      load_color b = Some c /\ store_color c b = Some b).
Proof.
  intros Hlen. destruct (buffer_is_encoding b Hlen) as [u ->].
  split; [| split]; eexists.
  - split; [apply load_projectionMatrix_encode |].
    rewrite store_projectionMatrix_encode. now destruct u.
  - split; [apply load_modelViewMatrix_encode |].
    rewrite store_modelViewMatrix_encode. now destruct u.
  - split; [apply load_color_encode |].
    rewrite store_color_encode. now destruct u.
Qed.

Lemma write_back_changes_nothing_witness :
  List.length (alloc Uniforms_t) = sizeof Uniforms_t /\
  exists c : vector_float4,
    load_color (alloc Uniforms_t) = Some c /\
    store_color c (alloc Uniforms_t) = Some (alloc Uniforms_t).
Proof.
  split; [reflexivity |].
  exact (proj2 (proj2 (write_back_changes_nothing (alloc Uniforms_t) eq_refl))).
Defined.

(** A store keeps the length of the storage, puts the bytes at their
    place and leaves the bytes before and after them as they were. *)
Lemma store_bytes_frame (off : nat) (bs : list byte) (b b' : buffer) :
  store_bytes off bs b = Some b' ->
  List.length b' = List.length b /\
  firstn off b' = firstn off b /\
  slice off (List.length bs) b' = bs /\
  skipn (off + List.length bs) b' = skipn (off + List.length bs) b.
Proof.
  unfold store_bytes.
  destruct (off + List.length bs <=? List.length b) eqn:E; [| discriminate].
  apply Nat.leb_le in E. intros H. injection H as <-.
  assert (Hpre : List.length (firstn off b) = off)
    by (rewrite length_firstn; lia).
  split; [| split; [| split]].
  - rewrite !length_app, Hpre, length_skipn. lia.
  - change (firstn off (firstn off b ++ bs ++ skipn (off + List.length bs) b))
      with (slice 0 off (firstn off b ++ bs ++ skipn (off + List.length bs) b)).
    now apply slice_first.
  - now apply slice_mid.
  - rewrite app_assoc, skipn_app, skipn_all2
      by (rewrite length_app, Hpre; lia).
    rewrite length_app, Hpre, Nat.sub_diag. reflexivity.
Qed.

(** X8.  A write to a member touches the bytes of that member only: on
    storage of any length, when the write is defined it keeps the length
    of the storage, puts the bytes of the value at the member's place and
    leaves every byte before and after the member as it was. *)
Theorem member_write_touches_only_its_bytes (b : buffer) :
  (forall (p : matrix_float4x4) (b' : buffer),
      store_projectionMatrix p b = Some b' ->
      List.length b' = List.length b /\
      slice 0 64 b' = encode_matrix p /\
      skipn 64 b' = skipn 64 b) /\
  (forall (m : matrix_float4x4) (b' : buffer),
      store_modelViewMatrix m b = Some b' ->
      List.length b' = List.length b /\
      firstn 64 b' = firstn 64 b /\
      slice 64 64 b' = encode_matrix m /\
      skipn 128 b' = skipn 128 b) /\
  (forall (c : vector_float4) (b' : buffer),
      store_color c b = Some b' ->
      List.length b' = List.length b /\
      firstn 128 b' = firstn 128 b /\
      slice 128 16 b' = encode_vector c /\
      skipn 144 b' = skipn 144 b).
Proof.
  unfold store_projectionMatrix, store_modelViewMatrix, store_color,
    store_member.
  rewrite lookup_projectionMatrix, lookup_modelViewMatrix, lookup_color,
    sizeof_matrix_float4x4, sizeof_vector_float4.
  split; [| split].
  - intros p b'. rewrite encode_matrix_length. cbn [Nat.eqb]. intros H.
    apply store_bytes_frame in H. rewrite encode_matrix_length in H.
    cbn [Nat.add] in H. tauto.
  - intros m b'. rewrite encode_matrix_length. cbn [Nat.eqb]. intros H.
    apply store_bytes_frame in H. rewrite encode_matrix_length in H.
    cbn [Nat.add] in H. tauto.
  - intros c b'. rewrite encode_vector_length. cbn [Nat.eqb]. intros H.
    apply store_bytes_frame in H. rewrite encode_vector_length in H.
    cbn [Nat.add] in H. tauto.
Qed.

Lemma member_write_touches_only_its_bytes_witness :
  exists b' : buffer,
    store_color opaque_red (repeat Byte.x00 256) = Some b' /\
    List.length b' = 256 /\
    firstn 128 b' = repeat Byte.x00 128 /\
    skipn 144 b' = repeat Byte.x00 112.
Proof.
  destruct (store_color opaque_red (repeat Byte.x00 256)) as [b' |] eqn:E;
    [| vm_compute in E; discriminate E].
  exists b'. split; [reflexivity |].
  destruct (proj2 (proj2 (member_write_touches_only_its_bytes
                            (repeat Byte.x00 256))) opaque_red b' E)
    as (Hlen & Hpre & _ & Hpost).
  split; [exact Hlen |]. split; [exact Hpre | exact Hpost].
Defined.
